(** * Staking pool rewards: MixinStakingPoolRewards.sol

    A shallow embedding of the two functions of the contract
    [MixinStakingPoolRewards] (Solidity ^0.5.9):

    - [computeRewardBalanceOfStakingPoolMember], a [view] function, and
    - [syncRewardBalanceOfStakingPoolMember], which pays the computed balance
      out through the reward vault.

    Unsigned integers are modelled as [Z] with the wrap-around of Solidity
    0.5 arithmetic written out; storage mappings are finite maps read with a
    zero default; a call either returns or reverts, and a reverted call
    leaves no trace. *)

From Stdlib Require Import ZArith QArith Lia Lqa String List.
From stdpp Require Import base option strings gmap.
Import ListNotations.

Local Open Scope Z_scope.

(** ** Machine integers *)

(** A value of type [uintN]. *)
Definition is_uint (bits z : Z) : Prop := 0 <= z < 2 ^ bits.

(** Truncation of a mathematical integer to [bits] bits. *)
Definition wrap (bits z : Z) : Z := z mod 2 ^ bits.

(** ** Data declared in IStructs *)

(** [IStructs.ND]: a ratio kept as numerator and denominator. *)
Record ND : Type := mkND {
  numerator : Z;
  denominator : Z
}.

(** [IStructs.StoredStakeBalance]. *)
Record StoredStakeBalance : Type := mkStoredStakeBalance {
  lastStored : Z;
  next : Z;
  current : Z
}.

(** What an unwritten mapping slot reads as. *)
Definition zeroND : ND := mkND 0 0.
Definition zeroStoredStakeBalance : StoredStakeBalance :=
  mkStoredStakeBalance 0 0 0.

(** ** Calls and their outcomes *)

Inductive Failure : Type :=
| DivisionByZero
| RequireFailed (reason : string).

Inductive result (A : Type) : Type :=
| Ok (a : A)
| Reverted (e : Failure).
Arguments Ok {A} a.
Arguments Reverted {A} e.

(** The one external call the mixin makes:
    [rewardVault.transferMemberBalanceToEthVault(poolId, member, amount)]. *)
Inductive VaultCall : Type :=
| TransferMemberBalanceToEthVault (poolId member amount : Z).

Section Staking.

(** Width in bits of the field [StoredStakeBalance.lastStored]; the struct
    is declared in IStructs.sol, which is not part of the sources at hand.
    It fixes where [lastStored - 1] wraps. *)
Variable lastStoredBits : Z.

(** The storage variables of MixinStorage that the mixin never names. *)
Context {Rest : Type}.

(** The storage variables the mixin reads. *)
Record Storage : Type := mkStorage {
  currentEpoch : Z;
  delegatedStakeToPoolByOwner : gmap Z (gmap Z StoredStakeBalance);
  rewardRatioSums : gmap Z ND;
  rewardVault : Z;
  otherStorage : Rest
}.

(** The contract's storage together with the calls made to the vault. *)
Record World : Type := mkWorld {
  storage : Storage;
  vaultCalls : list VaultCall
}.

(** A finished call: the number of primitive steps it took (storage reads,
    arithmetic operations, external calls) and what it produced. *)
Record Run (A : Type) : Type := mkRun {
  steps : nat;
  outcome : result (A * World)
}.
Arguments mkRun {A} steps outcome.
Arguments steps {A} r.
Arguments outcome {A} r.

Definition M (A : Type) : Type := World -> Run A.

Definition ret {A} (a : A) : M A :=
  fun w => mkRun 0%nat (Ok (a, w)).

Definition bind {A B} (m : M A) (k : A -> M B) : M B :=
  fun w =>
    match outcome (m w) with
    | Ok (a, w') =>
        let r := k a w' in mkRun (steps (m w) + steps r)%nat (outcome r)
    | Reverted e => mkRun (steps (m w)) (Reverted e)
    end.

Notation "x <-- m ;; k" := (bind m (fun x => k))
  (at level 100, m at next level, right associativity).

Definition sload {A} (read : Storage -> A) : M A :=
  fun w => mkRun 1%nat (Ok (read (storage w), w)).

Definition externalCall (c : VaultCall) : M unit :=
  fun w => mkRun 1%nat (Ok (tt, mkWorld (storage w) (vaultCalls w ++ [c]))).

Definition require (cond : bool) (reason : string) : M unit :=
  fun w => mkRun 0%nat
    (if cond then Ok (tt, w) else Reverted (RequireFailed reason)).

(** Solidity 0.5 arithmetic on [uintN]: [+], [-] and [*] wrap, [/] fails
    on a zero divisor. *)
Definition uint_add (bits a b : Z) : M Z :=
  fun w => mkRun 1%nat (Ok (wrap bits (a + b), w)).
Definition uint_sub (bits a b : Z) : M Z :=
  fun w => mkRun 1%nat (Ok (wrap bits (a - b), w)).
Definition uint_mul (bits a b : Z) : M Z :=
  fun w => mkRun 1%nat (Ok (wrap bits (a * b), w)).
Definition uint_div (a b : Z) : M Z :=
  fun w => mkRun 1%nat
    (if b =? 0 then Reverted DivisionByZero else Ok (a / b, w)).

(** *** Storage reads *)

(** [delegatedStakeToPoolByOwner[member][poolId]] *)
Definition delegatedStakeAt (s : Storage) (member poolId : Z)
  : StoredStakeBalance :=
  default zeroStoredStakeBalance
    (delegatedStakeToPoolByOwner s !! member ≫= fun byPool => byPool !! poolId).

(** [rewardRatioSums[epoch]] *)
Definition rewardRatioSumAt (s : Storage) (epoch : Z) : ND :=
  default zeroND (rewardRatioSums s !! epoch).

(** Modelled from the spec: [getCurrentEpoch] belongs to MixinScheduler,
    which is missing here; the epoch clock "exposes currentEpoch() ->
    integer", read from storage. *)
Definition getCurrentEpoch : M Z := sload currentEpoch.

(** *** The mixin *)

Definition computeRewardBalanceOfStakingPoolMember (poolId member : Z)
  : M Z :=
  delegatedStake <-- sload (fun s => delegatedStakeAt s member poolId) ;;
  epoch <-- getCurrentEpoch ;;
  nothing <-- (if epoch =? 0 then ret true
               else epoch' <-- getCurrentEpoch ;;
                    ret (lastStored delegatedStake =? epoch')) ;;
  if (nothing : bool) then ret 0 else
  (* `current` leg *)
  let totalReward := 0 in
  totalReward <--
    (if negb (current delegatedStake =? 0) then
       beginEpoch <-- uint_sub lastStoredBits (lastStored delegatedStake) 1 ;;
       let endEpoch := lastStored delegatedStake in
       beginRatio <-- sload (fun s => rewardRatioSumAt s beginEpoch) ;;
       endRatio <-- sload (fun s => rewardRatioSumAt s endEpoch) ;;
       l <-- uint_mul 256 (numerator endRatio) (denominator beginRatio) ;;
       r <-- uint_mul 256 (numerator beginRatio) (denominator endRatio) ;;
       rewardRatioN <-- uint_sub 256 l r ;;
       q <-- uint_div rewardRatioN (denominator beginRatio) ;;
       p <-- uint_mul 256 (current delegatedStake) q ;;
       rewardRatio <-- uint_div p (denominator endRatio) ;;
       uint_add 256 totalReward rewardRatio
     else ret totalReward) ;;
  (* `next` leg *)
  totalReward <--
    (let beginEpoch := lastStored delegatedStake in
     epoch <-- getCurrentEpoch ;;
     endEpoch <-- uint_sub 256 epoch 1 ;;
     beginRatio <-- sload (fun s => rewardRatioSumAt s beginEpoch) ;;
     endRatio <-- sload (fun s => rewardRatioSumAt s endEpoch) ;;
     l <-- uint_mul 256 (numerator endRatio) (denominator beginRatio) ;;
     r <-- uint_mul 256 (numerator beginRatio) (denominator endRatio) ;;
     rewardRatioN <-- uint_sub 256 l r ;;
     q <-- uint_div rewardRatioN (denominator beginRatio) ;;
     p <-- uint_mul 256 (next delegatedStake) q ;;
     rewardRatio <-- uint_div p (denominator endRatio) ;;
     uint_add 256 totalReward rewardRatio) ;;
  ret totalReward.

Definition syncRewardBalanceOfStakingPoolMember (poolId member : Z)
  : M unit :=
  balance <-- computeRewardBalanceOfStakingPoolMember poolId member ;;
  if balance =? 0 then ret tt else
  (* Pay the delegator *)
  vault <-- sload rewardVault ;;
  _ <-- require (negb (vault =? 0)) "eyo" ;;
  _ <-- externalCall (TransferMemberBalanceToEthVault poolId member balance) ;;
  (* Remove the reference *)
  ret tt.

End Staking.

Arguments Storage : clear implicits.
Arguments World : clear implicits.
Arguments Run : clear implicits.
Arguments M : clear implicits.
Arguments mkRun {Rest A} steps outcome.
Arguments steps {Rest A} r.
Arguments outcome {Rest A} r.

(** ** Closed forms of the arithmetic of one leg *)

(** Which epochs the two legs read, besides [lastStored] itself. *)
Definition currentLegBegin (lastStoredBits : Z) (d : StoredStakeBalance) : Z :=
  wrap lastStoredBits (lastStored d - 1).

Definition nextLegEnd {Rest} (s : Storage Rest) : Z :=
  wrap 256 (currentEpoch s - 1).

(** [rewardRatioN] of lines 97 and 108. *)
Definition rewardRatioN (beginRatio endRatio : ND) : Z :=
  wrap 256 (wrap 256 (numerator endRatio * denominator beginRatio)
            - wrap 256 (numerator beginRatio * denominator endRatio)).

(** [rewardRatio] of lines 98 and 109, when neither division fails. *)
Definition rewardRatio (stake : Z) (beginRatio endRatio : ND) : Z :=
  wrap 256 (stake * (rewardRatioN beginRatio endRatio / denominator beginRatio))
  / denominator endRatio.

(** A snapshot that was never written reads as 0/0. *)
Definition isSet (r : ND) : bool := negb (denominator r =? 0).

(** ** Well-typed storage *)

#[global] Instance is_uint_dec bits z : Decision (is_uint bits z).
Proof. unfold is_uint. apply _. Defined.

Definition uintND (r : ND) : Prop :=
  is_uint 256 (numerator r) /\ is_uint 256 (denominator r).

Definition uintStake (d : StoredStakeBalance) : Prop :=
  is_uint 256 (next d) /\ is_uint 256 (current d).

#[global] Instance uintND_dec r : Decision (uintND r).
Proof. unfold uintND. apply _. Defined.

#[global] Instance uintStake_dec d : Decision (uintStake d).
Proof. unfold uintStake. apply _. Defined.

(** Every stored word is an unsigned integer of at most 256 bits. *)
Definition wellTyped {Rest} (s : Storage Rest) : Prop :=
  map_Forall (fun _ byPool => map_Forall (fun _ d => uintStake d) byPool)
             (delegatedStakeToPoolByOwner s)
  /\ map_Forall (fun _ r => uintND r) (rewardRatioSums s).

(** ** The exact reward, in rational arithmetic *)

Definition ratioQ (r : ND) : Q :=
  (inject_Z (numerator r) / inject_Z (denominator r))%Q.

Definition exactLeg (stake : Z) (beginRatio endRatio : ND) : Q :=
  (inject_Z stake * (ratioQ endRatio - ratioQ beginRatio))%Q.

Definition exactReward {Rest} (lastStoredBits : Z) (s : Storage Rest)
  (poolId member : Z) : Q :=
  let d := delegatedStakeAt s member poolId in
  if (currentEpoch s =? 0) || (lastStored d =? currentEpoch s) then 0%Q
  else
    (exactLeg (current d)
       (rewardRatioSumAt s (currentLegBegin lastStoredBits d))
       (rewardRatioSumAt s (lastStored d))
     + exactLeg (next d)
         (rewardRatioSumAt s (lastStored d))
         (rewardRatioSumAt s (nextLegEnd s)))%Q.

(** The end ratio of a leg is not below its begin ratio, as holds between
    two snapshots of a cumulative ledger. *)
Definition ratioLe (beginRatio endRatio : ND) : Prop :=
  numerator beginRatio * denominator endRatio
  <= numerator endRatio * denominator beginRatio.

(** Both snapshots of a leg are set and the ratio did not decrease. *)
Definition legCumulative (beginRatio endRatio : ND) : Prop :=
  denominator beginRatio <> 0 /\ denominator endRatio <> 0
  /\ ratioLe beginRatio endRatio.

(** The snapshots the computation needs are set and cumulative: those of
    the `next` leg always, those of the `current` leg when the member has
    current stake; none when there is nothing to interpolate. *)
Definition neededSnapshotsCumulative {Rest} (lastStoredBits : Z)
  (s : Storage Rest) (poolId member : Z) : Prop :=
  let d := delegatedStakeAt s member poolId in
  if (currentEpoch s =? 0) || (lastStored d =? currentEpoch s) then True
  else
    (current d <> 0 ->
     legCumulative (rewardRatioSumAt s (currentLegBegin lastStoredBits d))
                   (rewardRatioSumAt s (lastStored d)))
    /\ legCumulative (rewardRatioSumAt s (lastStored d))
                     (rewardRatioSumAt s (nextLegEnd s)).

(** ** Step bounds *)

Definition computeStepBound : nat := 24.
Definition syncStepBound : nat := 26.

(** A computation that takes at most [n] steps from every world. *)
Definition bounded {Rest A} (n : nat) (m : M Rest A) : Prop :=
  forall w, (steps (m w) <= n)%nat.

(** ** The value a call returns *)

Definition returned {Rest A} (r : Run Rest A) : option A :=
  match outcome r with
  | Ok (a, _) => Some a
  | Reverted _ => None
  end.

Definition totalPaid (poolId : Z) (calls : list VaultCall) : Z :=
  fold_right
    (fun c acc =>
       match c with
       | TransferMemberBalanceToEthVault p _ amount =>
           if p =? poolId then amount + acc else acc
       end) 0 calls.

(** ** The view function in closed form

    What [computeRewardBalanceOfStakingPoolMember] returns, as a function of
    the storage alone; [compute_outcome] below proves the two agree. *)
Definition rewardBalance {Rest} (lastStoredBits : Z) (s : Storage Rest)
  (poolId member : Z) : result Z :=
  let d := delegatedStakeAt s member poolId in
  let b1 := rewardRatioSumAt s (currentLegBegin lastStoredBits d) in
  let e1 := rewardRatioSumAt s (lastStored d) in
  let b2 := rewardRatioSumAt s (lastStored d) in
  let e2 := rewardRatioSumAt s (nextLegEnd s) in
  if (currentEpoch s =? 0) || (lastStored d =? currentEpoch s) then Ok 0
  else if negb (current d =? 0) && negb (isSet b1 && isSet e1)
  then Reverted DivisionByZero
  else if negb (isSet b2 && isSet e2) then Reverted DivisionByZero
  else
    let afterCurrent :=
      if current d =? 0 then 0
      else wrap 256 (0 + rewardRatio (current d) b1 e1) in
    Ok (wrap 256 (afterCurrent + rewardRatio (next d) b2 e2)).

(** ** The computation as the specification words it

    Section 4.3 of the specification, with the carry-forward lookup of its
    step 5 and unbounded integers.  [None] stands for its
    [UnresolvedEpochGap]. *)
Module CarryForward.

(** The nearest snapshot set at or before epoch [n]. *)
Fixpoint nearestSet (ledger : gmap Z ND) (n : nat) : option ND :=
  let here := default zeroND (ledger !! Z.of_nat n) in
  if isSet here then Some here
  else match n with
       | O => None
       | S n' => nearestSet ledger n'
       end.

Definition get {Rest} (s : Storage Rest) (epoch : Z) : option ND :=
  if epoch <? 0 then None
  else nearestSet (rewardRatioSums s) (Z.to_nat epoch).

Definition legReward (stake : Z) (beginRatio endRatio : ND) : Z :=
  let deltaNumerator :=
    numerator endRatio * denominator beginRatio
    - numerator beginRatio * denominator endRatio in
  (stake * (deltaNumerator / denominator beginRatio)) / denominator endRatio.

Definition computeUnsettledReward {Rest} (s : Storage Rest)
  (poolId member : Z) : option Z :=
  let record := delegatedStakeAt s member poolId in
  if (currentEpoch s =? 0) || (lastStored record =? currentEpoch s)
  then Some 0
  else
    currentLeg ←
      (if current record =? 0 then Some 0
       else beginRatio ← get s (lastStored record - 1);
            endRatio ← get s (lastStored record);
            Some (legReward (current record) beginRatio endRatio));
    nextLeg ←
      (beginRatio ← get s (lastStored record);
       endRatio ← get s (currentEpoch s - 1);
       Some (legReward (next record) beginRatio endRatio));
    Some (currentLeg + nextLeg).

End CarryForward.

(** ** The scenario of the specification

    Member A delegated 100 units at epoch 1; 1000 units of reward were
    credited at epoch 2 against a total stake of 100, so the cumulative
    ratio is 0/1 at epoch 1 and 10/1 at epoch 2. *)
Module Scenario.

Definition poolId : Z := 1.
Definition memberA : Z := 10.
Definition vault : Z := 255.
Definition credited : Z := 1000.

Definition ledger : gmap Z ND := {[ 1 := mkND 0 1; 2 := mkND 10 1 ]}.

Definition stakes : gmap Z (gmap Z StoredStakeBalance) :=
  {[ memberA := {[ poolId := mkStoredStakeBalance 1 100 0 ]} ]}.

Definition storageAt (epoch : Z) : Storage unit :=
  mkStorage epoch stakes ledger vault tt.

Definition worldAt (epoch : Z) : World unit := mkWorld (storageAt epoch) [].

(** The same state at epoch 3 when "the ratio at epoch 1 is 0" is read as
    nothing having been recorded for epoch 1. *)
Definition ledgerWithoutEpoch1 : gmap Z ND := {[ 2 := mkND 10 1 ]}.

Definition worldWithoutEpoch1 : World unit :=
  mkWorld (mkStorage 3 stakes ledgerWithoutEpoch1 vault tt) [].

(** The width of [uint64], the type of an epoch in the staking contracts. *)
Definition epochBits : Z := 64.

End Scenario.

(** ** A state where both legs truncate

    A member with current stake 7 and next stake 5, last stored at epoch 2,
    seen at epoch 4 against the cumulative ratios 1/3, 2/3 and 5/3. *)
Module Truncating.

Definition poolId : Z := 1.
Definition memberB : Z := 11.

Definition ledger : gmap Z ND :=
  {[ 1 := mkND 1 3; 2 := mkND 2 3; 3 := mkND 5 3 ]}.

Definition stakes : gmap Z (gmap Z StoredStakeBalance) :=
  {[ memberB := {[ poolId := mkStoredStakeBalance 2 5 7 ]} ]}.

Definition world : World unit :=
  mkWorld (mkStorage 4 stakes ledger 255 tt) [].

End Truncating.

(** ** When the arithmetic of a leg does not wrap *)





(** ** More states *)
Module Fixtures.

(** The scenario at epoch 3 with no reward vault configured. *)
Definition worldWithoutVault : World unit :=
  mkWorld (mkStorage 3 Scenario.stakes Scenario.ledger 0 tt) [].

(** The scenario at epoch 3 with a snapshot for epoch 0 as well; member 11
    never delegated. *)
Definition worldWithEpoch0 : World unit :=
  mkWorld (mkStorage 3 Scenario.stakes
             {[ 0 := mkND 0 1; 1 := mkND 0 1; 2 := mkND 10 1 ]} 255 tt) [].

(** The scenario at epoch 3 seen from a contract with another member,
    another snapshot, another vault and an earlier transfer. *)
Definition worldWithOthers : World unit :=
  mkWorld
    (mkStorage 3
       {[ Scenario.memberA :=
            {[ Scenario.poolId := mkStoredStakeBalance 1 100 0;
               2 := mkStoredStakeBalance 2 9 9 ]};
          12 := {[ Scenario.poolId := mkStoredStakeBalance 2 7 7 ]} ]}
       {[ 1 := mkND 0 1; 2 := mkND 10 1; 7 := mkND 3 4 ]} 77 tt)
    [TransferMemberBalanceToEthVault 9 9 9].

(** A record with current stake that was last stored at epoch 0. *)
Definition worldStoredAtEpoch0 : World unit :=
  mkWorld
    (mkStorage 3
       {[ Scenario.memberA :=
            {[ Scenario.poolId := mkStoredStakeBalance 0 0 5 ]} ]}
       {[ 0 := mkND 0 1; 1 := mkND 0 1; 2 := mkND 10 1 ]} 255 tt) [].


End Fixtures.

(** * packages/instant/src/util/analytics.ts

    The module keeps one private flag, [isDisabled]; everything it sends
    goes through [heapUtil.evaluateHeapCall], imported from ./heap and
    taken here as a parameter acting on a state of its own. *)
Module Analytics.

Inductive EventNames : Type :=
| INSTANT_OPENED
| ACCOUNT_LOCKED
| ACCOUNT_READY
| ACCOUNT_UNLOCK_REQUESTED
| ACCOUNT_UNLOCK_DENIED
| ACCOUNT_ADDRESS_CHANGED
| BUY_NOT_ENOUGH_ETH
| BUY_STARTED
| BUY_SIGNATURE_DENIED
| BUY_SIMULATION_FAILED
| BUY_TX_SUBMITTED
| BUY_TX_SUCCEEDED
| BUY_TX_FAILED.

(** The string value of each member of the enum. *)
Definition eventNameValue (eventName : EventNames) : string :=
  match eventName with
  | INSTANT_OPENED => "Instant - Opened"
  | ACCOUNT_LOCKED => "Account - Locked"
  | ACCOUNT_READY => "Account - Ready"
  | ACCOUNT_UNLOCK_REQUESTED => "Account - Unlock Requested"
  | ACCOUNT_UNLOCK_DENIED => "Account - Unlock Denied"
  | ACCOUNT_ADDRESS_CHANGED => "Account - Address Changed"
  | BUY_NOT_ENOUGH_ETH => "Buy - Not Enough Eth"
  | BUY_STARTED => "Buy - Started"
  | BUY_SIGNATURE_DENIED => "Buy - Signature Denied"
  | BUY_SIMULATION_FAILED => "Buy - Simulation Failed"
  | BUY_TX_SUBMITTED => "Buy - Tx Submitted"
  | BUY_TX_SUCCEEDED => "Buy - Tx Succeeded"
  | BUY_TX_FAILED => "Buy - Tx Failed"
  end.

(** [EventProperties]: an object used as a map from property names to
    values. *)
Abbreviation EventProperties := (gmap string string).

Record AnalyticsUserOptions : Type := mkAnalyticsUserOptions {
  lastKnownEthAddress : option string;
  ethBalanceInUnitAmount : option string
}.

Record AnalyticsEventOptions : Type := mkAnalyticsEventOptions {
  embeddedHost : option string;
  embeddedUrl : option string;
  networkId : option Z;
  providerName : option string;
  gitSha : option string;
  npmVersion : option string
}.

(** The callbacks handed to [heapUtil.evaluateHeapCall]: each calls one
    method of the heap object. *)
Inductive HeapCall : Type :=
| HeapTrack (eventName : string) (eventProperties : EventProperties)
| HeapAddUserProperties (properties : AnalyticsUserOptions)
| HeapAddEventProperties (properties : AnalyticsEventOptions).

Section Tracking.

(** The state behind ./heap and what [evaluateHeapCall] does to it. *)
Context {Heap : Type}.
Variable evaluateHeapCall : HeapCall -> Heap -> Heap.

Record State : Type := mkState {
  isDisabled : bool;
  heap : Heap
}.

(** [let isDisabled = false] *)
Definition loaded (h : Heap) : State := mkState false h.

Definition disableAnalytics (shouldDisableAnalytics : bool) (st : State)
  : State :=
  mkState shouldDisableAnalytics (heap st).

Definition evaluateIfEnabled (fnCall : State -> State) (st : State) : State :=
  if isDisabled st then st else fnCall st.

Definition heapUtil_evaluateHeapCall (call : HeapCall) (st : State) : State :=
  mkState (isDisabled st) (evaluateHeapCall call (heap st)).

Definition track (eventName : EventNames) (eventProperties : EventProperties)
  : State -> State :=
  evaluateIfEnabled
    (heapUtil_evaluateHeapCall
       (HeapTrack (eventNameValue eventName) eventProperties)).

Definition trackingEventFnWithoutPayload (eventName : EventNames)
  : State -> State :=
  track eventName ∅.

Definition trackingEventFnWithPayload (eventName : EventNames)
  (eventProperties : EventProperties) : State -> State :=
  track eventName eventProperties.

(** The members of the exported [analytics] object. *)
Definition addUserProperties (properties : AnalyticsUserOptions)
  : State -> State :=
  evaluateIfEnabled
    (heapUtil_evaluateHeapCall (HeapAddUserProperties properties)).

Definition addEventProperties (properties : AnalyticsEventOptions)
  : State -> State :=
  evaluateIfEnabled
    (heapUtil_evaluateHeapCall (HeapAddEventProperties properties)).

Definition trackInstantOpened := trackingEventFnWithoutPayload INSTANT_OPENED.
Definition trackAccountLocked := trackingEventFnWithoutPayload ACCOUNT_LOCKED.
Definition trackAccountReady (address : string) :=
  trackingEventFnWithPayload ACCOUNT_READY {[ "address" := address ]}.
Definition trackAccountUnlockRequested :=
  trackingEventFnWithoutPayload ACCOUNT_UNLOCK_REQUESTED.
Definition trackAccountUnlockDenied :=
  trackingEventFnWithoutPayload ACCOUNT_UNLOCK_DENIED.
Definition trackAccountAddressChanged (address : string) :=
  trackingEventFnWithPayload ACCOUNT_ADDRESS_CHANGED {[ "address" := address ]}.
Definition trackBuyNotEnoughEth :=
  trackingEventFnWithoutPayload BUY_NOT_ENOUGH_ETH.
Definition trackBuyStarted := trackingEventFnWithoutPayload BUY_STARTED.
Definition trackBuySignatureDenied :=
  trackingEventFnWithoutPayload BUY_SIGNATURE_DENIED.
Definition trackBuySimulationFailed :=
  trackingEventFnWithoutPayload BUY_SIMULATION_FAILED.
Definition trackBuyTxSubmitted :=
  trackingEventFnWithoutPayload BUY_TX_SUBMITTED.
Definition trackBuyTxSucceeded :=
  trackingEventFnWithoutPayload BUY_TX_SUCCEEDED.
Definition trackBuyTxFailed := trackingEventFnWithoutPayload BUY_TX_FAILED.

(** A use of one member of [analytics], and a run of several. *)
Inductive Use : Type :=
| UseAddUserProperties (properties : AnalyticsUserOptions)
| UseAddEventProperties (properties : AnalyticsEventOptions)
| UseTrackInstantOpened
| UseTrackAccountLocked
| UseTrackAccountReady (address : string)
| UseTrackAccountUnlockRequested
| UseTrackAccountUnlockDenied
| UseTrackAccountAddressChanged (address : string)
| UseTrackBuyNotEnoughEth
| UseTrackBuyStarted
| UseTrackBuySignatureDenied
| UseTrackBuySimulationFailed
| UseTrackBuyTxSubmitted
| UseTrackBuyTxSucceeded
| UseTrackBuyTxFailed.

Definition analytics (use : Use) : State -> State :=
  match use with
  | UseAddUserProperties properties => addUserProperties properties
  | UseAddEventProperties properties => addEventProperties properties
  | UseTrackInstantOpened => trackInstantOpened
  | UseTrackAccountLocked => trackAccountLocked
  | UseTrackAccountReady address => trackAccountReady address
  | UseTrackAccountUnlockRequested => trackAccountUnlockRequested
  | UseTrackAccountUnlockDenied => trackAccountUnlockDenied
  | UseTrackAccountAddressChanged address => trackAccountAddressChanged address
  | UseTrackBuyNotEnoughEth => trackBuyNotEnoughEth
  | UseTrackBuyStarted => trackBuyStarted
  | UseTrackBuySignatureDenied => trackBuySignatureDenied
  | UseTrackBuySimulationFailed => trackBuySimulationFailed
  | UseTrackBuyTxSubmitted => trackBuyTxSubmitted
  | UseTrackBuyTxSucceeded => trackBuyTxSucceeded
  | UseTrackBuyTxFailed => trackBuyTxFailed
  end.

Definition runAll (uses : list Use) (st : State) : State :=
  fold_left (fun st use => analytics use st) uses st.

(** The call each use hands to the heap when analytics is enabled. *)
Definition heapCallOf (use : Use) : HeapCall :=
  match use with
  | UseAddUserProperties properties => HeapAddUserProperties properties
  | UseAddEventProperties properties => HeapAddEventProperties properties
  | UseTrackInstantOpened => HeapTrack "Instant - Opened" ∅
  | UseTrackAccountLocked => HeapTrack "Account - Locked" ∅
  | UseTrackAccountReady address =>
      HeapTrack "Account - Ready" {[ "address" := address ]}
  | UseTrackAccountUnlockRequested => HeapTrack "Account - Unlock Requested" ∅
  | UseTrackAccountUnlockDenied => HeapTrack "Account - Unlock Denied" ∅
  | UseTrackAccountAddressChanged address =>
      HeapTrack "Account - Address Changed" {[ "address" := address ]}
  | UseTrackBuyNotEnoughEth => HeapTrack "Buy - Not Enough Eth" ∅
  | UseTrackBuyStarted => HeapTrack "Buy - Started" ∅
  | UseTrackBuySignatureDenied => HeapTrack "Buy - Signature Denied" ∅
  | UseTrackBuySimulationFailed => HeapTrack "Buy - Simulation Failed" ∅
  | UseTrackBuyTxSubmitted => HeapTrack "Buy - Tx Submitted" ∅
  | UseTrackBuyTxSucceeded => HeapTrack "Buy - Tx Succeeded" ∅
  | UseTrackBuyTxFailed => HeapTrack "Buy - Tx Failed" ∅
  end.

End Tracking.

(** A heap that keeps the calls it was handed, oldest first. *)
Definition recordingHeap (call : HeapCall) (h : list HeapCall)
  : list HeapCall :=
  h ++ [call].

End Analytics.

(** * packages/subproviders/src/subproviders/mnemonic_wallet_subprovider.ts

    The class keeps three private fields.  Key derivation, address search
    and signing live in bip39, hdkey, ../utils/wallet_utils and
    ./private_key_wallet_subprovider; they are taken as parameters, each
    free to throw.  A rejected promise and a thrown error are both
    [Thrown]. *)
Module MnemonicWallet.

Inductive Outcome (A : Type) : Type :=
| Returned (a : A)
| Thrown (message : string).
Arguments Returned {A} a.
Arguments Thrown {A} message.

Definition andThen {A B} (o : Outcome A) (k : A -> Outcome B) : Outcome B :=
  match o with
  | Returned a => k a
  | Thrown message => Thrown message
  end.

Definition DEFAULT_DERIVATION_PATH : string := "44'/60'/0'/0".

Section Subprovider.

Context {Seed HDNode TxFields : Type}.

(** [DerivedHDKey] of ../types, with the fields the constructor fills. *)
Record DerivedHDKey : Type := mkDerivedHDKey {
  address : string;
  derivationPath : string;
  derivationIndex : Z;
  hdKey : HDNode;
  isChildKey : bool
}.

(** [PartialTxParams]: the optional sender and the other fields. *)
Record PartialTxParams : Type := mkPartialTxParams {
  from : option string;
  txFields : TxFields
}.

(** What the file imports. *)
Class Imports : Type := mkImports {
  bip39_mnemonicToSeed : string -> Outcome Seed;
  HDNode_fromMasterSeed : Seed -> Outcome HDNode;
  hdKey_privateKey_toString_hex : HDNode -> Outcome string;
  walletUtils_DEFAULT_ADDRESS_SEARCH_LIMIT : Z;
  walletUtils_DEFAULT_NUM_ADDRESSES_TO_FETCH : Z;
  walletUtils_addressOfHDKey : HDNode -> Outcome string;
  walletUtils_calculateDerivedHDKeys :
    DerivedHDKey -> Z -> Outcome (list DerivedHDKey);
  walletUtils_firstDerivedKey : DerivedHDKey -> Outcome DerivedHDKey;
  walletUtils_findDerivedKeyByAddress :
    string -> DerivedHDKey -> Z -> Outcome (option DerivedHDKey);
  PrivateKeyWalletSubprovider_signTransactionAsync :
    string -> PartialTxParams -> Outcome string;
  PrivateKeyWalletSubprovider_signPersonalMessageAsync :
    string -> string -> string -> Outcome string;
  WalletSubproviderErrors_AddressNotFound : string
}.

Context {imports : Imports}.

Notation "x <-- o ;; k" := (andThen o (fun x => k))
  (at level 100, o at next level, right associativity).

Record MnemonicWalletSubprovider : Type := mkMnemonicWalletSubprovider {
  _addressSearchLimit : Z;
  _derivationPath : string;
  _derivedKey : DerivedHDKey
}.

(** The constructor; an omitted argument is [None]. The three type
    assertions hold of typed arguments. *)
Definition constructor (mnemonic : string) (derivationPath : option string)
  (addressSearchLimit : option Z) : Outcome MnemonicWalletSubprovider :=
  let derivationPath := default DEFAULT_DERIVATION_PATH derivationPath in
  let addressSearchLimit :=
    default walletUtils_DEFAULT_ADDRESS_SEARCH_LIMIT addressSearchLimit in
  seed <-- bip39_mnemonicToSeed mnemonic ;;
  hdKey <-- HDNode_fromMasterSeed seed ;;
  address <-- walletUtils_addressOfHDKey hdKey ;;
  Returned
    (mkMnemonicWalletSubprovider addressSearchLimit derivationPath
       (mkDerivedHDKey address derivationPath 0 hdKey false)).

Definition getPath (this : MnemonicWalletSubprovider) : string :=
  _derivationPath this.

Definition setPath (derivationPath : string) (this : MnemonicWalletSubprovider)
  : MnemonicWalletSubprovider :=
  mkMnemonicWalletSubprovider (_addressSearchLimit this) derivationPath
    (_derivedKey this).

Definition getAccountsAsync (this : MnemonicWalletSubprovider)
  (numberOfAccounts : option Z) : Outcome (list string) :=
  let numberOfAccounts :=
    default walletUtils_DEFAULT_NUM_ADDRESSES_TO_FETCH numberOfAccounts in
  derivedKeys <--
    walletUtils_calculateDerivedHDKeys (_derivedKey this) numberOfAccounts ;;
  let accounts := map address derivedKeys in
  Returned accounts.

Definition _findDerivedKeyByPublicAddress (this : MnemonicWalletSubprovider)
  (address : string) : Outcome DerivedHDKey :=
  matchedDerivedKey <--
    walletUtils_findDerivedKeyByAddress address (_derivedKey this)
      (_addressSearchLimit this) ;;
  match matchedDerivedKey with
  | None =>
      Thrown (String.append WalletSubproviderErrors_AddressNotFound
                (String.append ": " address))
  | Some matchedDerivedKey => Returned matchedDerivedKey
  end.

Definition signTransactionAsync (this : MnemonicWalletSubprovider)
  (txParams : PartialTxParams) : Outcome string :=
  derivedKey <--
    (match from txParams with
     | None => walletUtils_firstDerivedKey (_derivedKey this)
     | Some sender => _findDerivedKeyByPublicAddress this sender
     end) ;;
  privateKey <-- hdKey_privateKey_toString_hex (hdKey derivedKey) ;;
  PrivateKeyWalletSubprovider_signTransactionAsync privateKey txParams.

Definition signPersonalMessageAsync (this : MnemonicWalletSubprovider)
  (data : string) (signer : option string) : Outcome string :=
  derivedKey <--
    (match signer with
     | None => walletUtils_firstDerivedKey (_derivedKey this)
     | Some signer => _findDerivedKeyByPublicAddress this signer
     end) ;;
  privateKey <-- hdKey_privateKey_toString_hex (hdKey derivedKey) ;;
  PrivateKeyWalletSubprovider_signPersonalMessageAsync
    privateKey data (address derivedKey).

End Subprovider.

Arguments DerivedHDKey : clear implicits.
Arguments PartialTxParams : clear implicits.
Arguments Imports : clear implicits.
Arguments MnemonicWalletSubprovider : clear implicits.

(** Imports for trying the class out: keys are strings, the only known
    address is that of the master key, and signing prefixes the private
    key to what it signs. *)
Definition toyImports : Imports string string string :=
  mkImports
    (fun mnemonic => Returned (String.append "seed:" mnemonic))
    (fun seed => Returned (String.append "node:" seed))
    (fun node => Returned (String.append "key:" node))
    1000 10
    (fun node => Returned (String.append "0x" node))
    (fun parent n => Returned [parent])
    (fun parent => Returned parent)
    (fun wanted parent limit =>
       Returned (if String.eqb wanted (address parent) then Some parent
                 else None))
    (fun privateKey tx =>
       Returned (String.append privateKey (String.append "/" (txFields tx))))
    (fun privateKey data signer =>
       Returned (String.append privateKey (String.append "/" data)))
    "ADDRESS_NOT_FOUND".

End MnemonicWallet.

(** * Properties *)

Section Properties.

Variable lastStoredBits : Z.
Context {Rest : Type}.
Implicit Types (w : World Rest) (s : Storage Rest) (poolId member : Z).

Local Arguments bind : simpl never.
Local Arguments wrap : simpl never.
Local Arguments delegatedStakeAt : simpl never.
Local Arguments rewardRatioSumAt : simpl never.

(** *** Running the monad *)

Lemma outcome_bind {A B} (m : M Rest A) (k : A -> M Rest B) w :
  outcome (bind m k w)
  = match outcome (m w) with
    | Ok (a, w') => outcome (k a w')
    | Reverted e => Reverted e
    end.
Proof. unfold bind. destruct (outcome (m w)) as [[a w']|e]; reflexivity. Qed.

Lemma bounded_bind {A B} a b (m : M Rest A) (k : A -> M Rest B) :
  bounded a m -> (forall x, bounded b (k x)) -> bounded (a + b) (bind m k).
Proof.
  intros Hm Hk w. unfold bind.
  specialize (Hm w).
  destruct (outcome (m w)) as [[x w']|e]; cbn.
  - specialize (Hk x w'). lia.
  - lia.
Qed.

Lemma bounded_if {A} a b (c : bool) (x y : M Rest A) :
  bounded a x -> bounded b y -> bounded (Nat.max a b) (if c then x else y).
Proof. intros Hx Hy w. destruct c; [specialize (Hx w)|specialize (Hy w)]; lia. Qed.

Lemma bounded_weaken {A} n n' (m : M Rest A) :
  bounded n m -> (n <= n')%nat -> bounded n' m.
Proof. intros H Hle w. specialize (H w). lia. Qed.

Lemma bounded_ret {A} (a : A) : bounded 0 (ret (Rest:=Rest) a).
Proof. intros w. cbn. lia. Qed.

Lemma bounded_sload {A} (read : Storage Rest -> A) : bounded 1 (sload read).
Proof. intros w. cbn. lia. Qed.

Lemma bounded_getCurrentEpoch : bounded 1 (getCurrentEpoch (Rest:=Rest)).
Proof. apply bounded_sload. Qed.

Lemma bounded_externalCall c : bounded 1 (externalCall (Rest:=Rest) c).
Proof. intros w. cbn. lia. Qed.

Lemma bounded_require c reason : bounded 0 (require (Rest:=Rest) c reason).
Proof. intros w. cbn. lia. Qed.

Lemma bounded_uint_add bits a b : bounded 1 (uint_add (Rest:=Rest) bits a b).
Proof. intros w. cbn. lia. Qed.

Lemma bounded_uint_sub bits a b : bounded 1 (uint_sub (Rest:=Rest) bits a b).
Proof. intros w. cbn. lia. Qed.

Lemma bounded_uint_mul bits a b : bounded 1 (uint_mul (Rest:=Rest) bits a b).
Proof. intros w. cbn. lia. Qed.

Lemma bounded_uint_div a b : bounded 1 (uint_div (Rest:=Rest) a b).
Proof. intros w. cbn. lia. Qed.

Ltac bound_steps :=
  repeat first
    [ apply bounded_ret | apply bounded_sload | apply bounded_getCurrentEpoch
    | apply bounded_externalCall | apply bounded_require
    | apply bounded_uint_add | apply bounded_uint_sub
    | apply bounded_uint_mul | apply bounded_uint_div
    | eapply bounded_bind; [ | intros ? ]
    | eapply bounded_if ].

Lemma compute_bounded poolId member :
  bounded (Rest:=Rest) computeStepBound
    (computeRewardBalanceOfStakingPoolMember lastStoredBits poolId member).
Proof.
  eapply bounded_weaken.
  - unfold computeRewardBalanceOfStakingPoolMember. cbv zeta. bound_steps.
  - cbn. unfold computeStepBound. lia.
Qed.

Lemma sync_bounded poolId member :
  bounded (Rest:=Rest) syncStepBound
    (syncRewardBalanceOfStakingPoolMember lastStoredBits poolId member).
Proof.
  eapply bounded_weaken.
  - unfold syncRewardBalanceOfStakingPoolMember.
    eapply bounded_bind; [ apply compute_bounded | intros balance ].
    bound_steps.
  - cbn. unfold syncStepBound, computeStepBound. lia.
Qed.

(** *** The view function *)

Ltac run := repeat (rewrite outcome_bind; cbn).

Ltac split_test :=
  match goal with
  | |- context [Z.eqb ?a ?b] => destruct (Z.eqb a b) eqn:?
  end; cbn; try reflexivity; try congruence.

(** The monadic code and its closed form agree. *)
Lemma compute_outcome w poolId member :
  outcome (computeRewardBalanceOfStakingPoolMember lastStoredBits poolId member w)
  = match rewardBalance lastStoredBits (storage w) poolId member with
    | Ok v => Ok (v, w)
    | Reverted e => Reverted e
    end.
Proof.
  unfold computeRewardBalanceOfStakingPoolMember, rewardBalance, isSet,
    rewardRatio, rewardRatioN, currentLegBegin, nextLegEnd.
  cbv zeta. rewrite outcome_bind; cbn.
  generalize (delegatedStakeAt (storage w) member poolId); intros d.
  repeat (run; try reflexivity; split_test).
Qed.

(** *** Arithmetic of one leg *)

Lemma wrap_le bits z : 0 <= z -> 0 <= wrap bits z <= z.
Proof.
  intros Hz. unfold wrap.
  destruct (Z.eq_dec (2 ^ bits) 0) as [E|E].
  - rewrite E, Z.mod_0_r; lia.
  - assert (0 <= 2 ^ bits) by (apply Z.pow_nonneg; lia).
    split; [apply Z.mod_pos_bound; lia | apply Z.mod_le; lia].
Qed.

Lemma rewardRatioN_le beginRatio endRatio :
  ratioLe beginRatio endRatio ->
  0 <= rewardRatioN beginRatio endRatio
    <= numerator endRatio * denominator beginRatio
       - numerator beginRatio * denominator endRatio.
Proof.
  unfold ratioLe, rewardRatioN, wrap. intros Hle.
  rewrite <- Zminus_mod.
  apply (wrap_le 256). lia.
Qed.

Lemma rewardRatio_bounds stake beginRatio endRatio :
  0 <= stake ->
  0 < denominator beginRatio -> 0 < denominator endRatio ->
  ratioLe beginRatio endRatio ->
  0 <= rewardRatio stake beginRatio endRatio
  /\ rewardRatio stake beginRatio endRatio
      * (denominator beginRatio * denominator endRatio)
     <= stake * (numerator endRatio * denominator beginRatio
                 - numerator beginRatio * denominator endRatio).
Proof.
  intros Hs Hb He Hle. unfold rewardRatio.
  pose proof (rewardRatioN_le _ _ Hle) as [HN0 HN].
  set (N := rewardRatioN beginRatio endRatio) in *.
  set (bd := denominator beginRatio) in *.
  set (ed := denominator endRatio) in *.
  assert (Hq0 : 0 <= N / bd) by (apply Z.div_pos; lia).
  assert (Hq : bd * (N / bd) <= N) by (apply Z.mul_div_le; lia).
  assert (Hp0 : 0 <= stake * (N / bd)) by nia.
  pose proof (wrap_le 256 _ Hp0) as [Hy0 Hy].
  set (y := wrap 256 (stake * (N / bd))) in *.
  assert (Hr0 : 0 <= y / ed) by (apply Z.div_pos; lia).
  assert (Hr : ed * (y / ed) <= y) by (apply Z.mul_div_le; lia).
  split; [exact Hr0|].
  assert (y * bd <= stake * N) by nia.
  nia.
Qed.

Lemma rewardRatio_le_exactLeg stake beginRatio endRatio :
  0 <= stake ->
  0 < denominator beginRatio -> 0 < denominator endRatio ->
  ratioLe beginRatio endRatio ->
  (inject_Z (rewardRatio stake beginRatio endRatio)
   <= exactLeg stake beginRatio endRatio)%Q.
Proof.
  intros Hs Hb He Hle.
  destruct (rewardRatio_bounds _ _ _ Hs Hb He Hle) as [_ H].
  unfold exactLeg, ratioQ.
  set (r := rewardRatio stake beginRatio endRatio) in *.
  destruct beginRatio as [bn bd], endRatio as [en ed]; cbn in *.
  assert (Hbd : ~ (inject_Z bd == 0)%Q).
  { change 0%Q with (inject_Z 0). rewrite inject_Z_injective. lia. }
  assert (Hed : ~ (inject_Z ed == 0)%Q).
  { change 0%Q with (inject_Z 0). rewrite inject_Z_injective. lia. }
  assert (E : (inject_Z stake * (inject_Z en / inject_Z ed - inject_Z bn / inject_Z bd)
               == inject_Z (stake * (en * bd - bn * ed)) / inject_Z (bd * ed))%Q).
  { rewrite !inject_Z_mult. unfold Z.sub. rewrite inject_Z_plus, inject_Z_opp.
    rewrite !inject_Z_mult. field. split; assumption. }
  rewrite E.
  apply Qle_shift_div_l.
  - change 0%Q with (inject_Z 0). rewrite <- Zlt_Qlt. nia.
  - rewrite <- inject_Z_mult, <- Zle_Qle. exact H.
Qed.

(** *** Reads from a well-typed storage *)

Lemma uintND_zero : uintND zeroND.
Proof. repeat split; cbn; try lia; reflexivity. Qed.

Lemma uintStake_zero : uintStake zeroStoredStakeBalance.
Proof. repeat split; cbn; try lia; reflexivity. Qed.

Lemma wellTyped_ratio s epoch :
  wellTyped s -> uintND (rewardRatioSumAt s epoch).
Proof.
  intros [_ H]. unfold rewardRatioSumAt.
  destruct (rewardRatioSums s !! epoch) as [r|] eqn:E; cbn.
  - exact (map_Forall_lookup_1 _ _ _ _ H E).
  - apply uintND_zero.
Qed.

Lemma wellTyped_stake s member poolId :
  wellTyped s -> uintStake (delegatedStakeAt s member poolId).
Proof.
  intros [H _]. unfold delegatedStakeAt.
  destruct (delegatedStakeToPoolByOwner s !! member) as [byPool|] eqn:E; cbn.
  - pose proof (map_Forall_lookup_1 _ _ _ _ H E) as H'. cbn in H'.
    destruct (byPool !! poolId) as [d|] eqn:E'; cbn.
    + exact (map_Forall_lookup_1 _ _ _ _ H' E').
    + apply uintStake_zero.
  - apply uintStake_zero.
Qed.

(** *** The paying function *)

Lemma sync_outcome w poolId member :
  outcome (syncRewardBalanceOfStakingPoolMember lastStoredBits poolId member w)
  = match rewardBalance lastStoredBits (storage w) poolId member with
    | Reverted e => Reverted e
    | Ok balance =>
        if balance =? 0 then Ok (tt, w)
        else if rewardVault (storage w) =? 0
             then Reverted (RequireFailed "eyo")
             else Ok (tt, mkWorld (storage w)
                            (vaultCalls w ++
                             [TransferMemberBalanceToEthVault poolId member balance]))
    end.
Proof.
  unfold syncRewardBalanceOfStakingPoolMember.
  rewrite outcome_bind, compute_outcome.
  destruct (rewardBalance lastStoredBits (storage w) poolId member)
    as [balance|e]; [|reflexivity].
  destruct (balance =? 0); [reflexivity|].
  run. destruct (rewardVault (storage w) =? 0); reflexivity.
Qed.

Lemma nothing_to_interpolate_false s (d : StoredStakeBalance) :
  currentEpoch s <> 0 -> lastStored d <> currentEpoch s ->
  (currentEpoch s =? 0) || (lastStored d =? currentEpoch s) = false.
Proof.
  intros H0 H1.
  apply Z.eqb_neq in H0. apply Z.eqb_neq in H1. rewrite H0, H1. reflexivity.
Qed.

Lemma isSet_true r : denominator r <> 0 -> isSet r = true.
Proof. intros H. unfold isSet. apply Z.eqb_neq in H. rewrite H. reflexivity. Qed.

Lemma isSet_false r : denominator r = 0 -> isSet r = false.
Proof. intros H. unfold isSet. rewrite H. reflexivity. Qed.

Lemma isSet_spec r : isSet r = true -> denominator r <> 0.
Proof. unfold isSet. destruct (Z.eqb_spec (denominator r) 0); [discriminate|auto]. Qed.


(** Between snapshots that are not cumulative the unsigned subtraction of
    line 97 wraps around. *)
Example rewardRatioN_wraps_when_ratio_decreases :
  rewardRatioN (mkND 10 1) (mkND 0 1) = 2 ^ 256 - 10.
Proof. reflexivity. Qed.

(** ** Claims about [computeRewardBalanceOfStakingPoolMember] *)

(** C6. If the current epoch is 0, or the member's record was last stored in
    the current epoch, the computed reward balance is 0 (and the call leaves
    the world as it found it). *)
Theorem compute_zero_when_nothing_to_interpolate w poolId member :
  currentEpoch (storage w) = 0
  \/ lastStored (delegatedStakeAt (storage w) member poolId)
     = currentEpoch (storage w) ->
  outcome (computeRewardBalanceOfStakingPoolMember lastStoredBits poolId member w)
  = Ok (0, w).
Proof.
  intros H. rewrite compute_outcome. unfold rewardBalance. cbv zeta.
  destruct H as [H|H].
  - rewrite H. reflexivity.
  - rewrite H, Z.eqb_refl, orb_true_r. reflexivity.
Qed.

(** C8. With something to interpolate (current epoch nonzero, record not
    stored in the current epoch) the `next` leg is evaluated whatever the
    member's next stake is, and the `current` leg when the current stake is
    nonzero; if any snapshot so read is unset (denominator 0), the call
    fails on a division by zero instead of returning a value. *)
Theorem compute_fails_on_unset_snapshot w poolId member :
  let s := storage w in
  let d := delegatedStakeAt s member poolId in
  currentEpoch s <> 0 ->
  lastStored d <> currentEpoch s ->
  denominator (rewardRatioSumAt s (lastStored d)) = 0
  \/ denominator (rewardRatioSumAt s (nextLegEnd s)) = 0
  \/ (current d <> 0
      /\ denominator (rewardRatioSumAt s (currentLegBegin lastStoredBits d)) = 0) ->
  outcome (computeRewardBalanceOfStakingPoolMember lastStoredBits poolId member w)
  = Reverted DivisionByZero.
Proof.
  intros s d H0 H1 Hunset. rewrite compute_outcome. unfold rewardBalance.
  cbv zeta. fold s. fold d.
  rewrite (nothing_to_interpolate_false s d H0 H1).
  destruct Hunset as [H|[H|[Hc H]]].
  - rewrite (isSet_false _ H), andb_false_r. cbn.
    destruct (negb (current d =? 0)); reflexivity.
  - rewrite (isSet_false _ H), andb_false_r. cbn.
    destruct (negb (current d =? 0) && _); reflexivity.
  - apply Z.eqb_neq in Hc. rewrite Hc, (isSet_false _ H). reflexivity.
Qed.

(** C4, as the code has it. The ledger is read as stored, without
    carry-forward: when a call with something to interpolate returns a
    reward, every snapshot it read was set, and the reward is the leg
    formula over exactly the stored entries; a call that reads an unset
    entry returns nothing, so no reward is ever computed from a zero
    ratio put in place of an unset one. *)
Theorem compute_reads_snapshots_as_stored w poolId member v :
  let s := storage w in
  let d := delegatedStakeAt s member poolId in
  let b1 := rewardRatioSumAt s (currentLegBegin lastStoredBits d) in
  let e1 := rewardRatioSumAt s (lastStored d) in
  let e2 := rewardRatioSumAt s (nextLegEnd s) in
  currentEpoch s <> 0 ->
  lastStored d <> currentEpoch s ->
  outcome (computeRewardBalanceOfStakingPoolMember lastStoredBits poolId member w)
  = Ok (v, w) ->
  denominator e1 <> 0 /\ denominator e2 <> 0
  /\ (current d <> 0 -> denominator b1 <> 0)
  /\ v = wrap 256
           ((if current d =? 0 then 0
             else wrap 256 (0 + rewardRatio (current d) b1 e1))
            + rewardRatio (next d) e1 e2).
Proof.
  intros s d b1 e1 e2 H0 H1. rewrite compute_outcome. unfold rewardBalance.
  cbv zeta. fold s. fold d. fold b1. fold e1. fold e2.
  rewrite (nothing_to_interpolate_false s d H0 H1).
  destruct (negb (current d =? 0) && negb (isSet b1 && isSet e1)) eqn:E1;
    [discriminate|].
  destruct (isSet e1 && isSet e2) eqn:E2; cbn; [|discriminate].
  intros Hv. injection Hv as Hv.
  apply andb_prop in E2 as [He1 He2].
  repeat split.
  - apply isSet_spec, He1.
  - apply isSet_spec, He2.
  - intros Hc. apply Z.eqb_neq in Hc. rewrite Hc in E1. cbn in E1.
    apply negb_false_iff, andb_prop in E1 as [Hb1 _].
    apply isSet_spec, Hb1.
  - symmetry. exact Hv.
Qed.

Lemma total_le_exact a b (x y : Q) :
  0 <= a -> 0 <= b ->
  (inject_Z a <= x)%Q -> (inject_Z b <= y)%Q ->
  (inject_Z (wrap 256 (a + b)) <= x + y)%Q.
Proof.
  intros Ha Hb Hx Hy.
  destruct (wrap_le 256 (a + b)) as [_ Hw]; [lia|].
  apply Qle_trans with (inject_Z (a + b)).
  - rewrite <- Zle_Qle. exact Hw.
  - rewrite inject_Z_plus. apply Qplus_le_compat; assumption.
Qed.

Lemma legCumulative_le_exact stake beginRatio endRatio :
  0 <= stake -> uintND beginRatio -> uintND endRatio ->
  legCumulative beginRatio endRatio ->
  0 <= rewardRatio stake beginRatio endRatio
  /\ (inject_Z (rewardRatio stake beginRatio endRatio)
      <= exactLeg stake beginRatio endRatio)%Q.
Proof.
  intros Hs [_ [Hb _]] [_ [He _]] (Hb0 & He0 & Hle).
  split.
  - apply rewardRatio_bounds; auto; lia.
  - apply rewardRatio_le_exactLeg; auto; lia.
Qed.

(** C7. In a well-typed storage whose needed snapshots are set and
    cumulative, the call returns, and what it returns (two truncating
    divisions per leg) is at most the exact rational reward for the same
    stake amounts and snapshots. *)
Theorem compute_never_overpays w poolId member :
  wellTyped (storage w) ->
  neededSnapshotsCumulative lastStoredBits (storage w) poolId member ->
  exists v,
    outcome (computeRewardBalanceOfStakingPoolMember lastStoredBits poolId member w)
    = Ok (v, w)
    /\ (inject_Z v <= exactReward lastStoredBits (storage w) poolId member)%Q.
Proof.
  intros Hwt. rewrite compute_outcome.
  unfold neededSnapshotsCumulative, rewardBalance, exactReward. cbv zeta.
  set (s := storage w). set (d := delegatedStakeAt s member poolId).
  destruct ((currentEpoch s =? 0) || (lastStored d =? currentEpoch s)).
  { intros _. exists 0. split; [reflexivity|apply Qle_refl]. }
  intros [H1 H2].
  destruct (wellTyped_stake s member poolId Hwt) as [[Hn _] [Hc _]].
  fold d in Hn, Hc.
  pose proof (wellTyped_ratio s (lastStored d) Hwt) as Ue1.
  pose proof (wellTyped_ratio s (nextLegEnd s) Hwt) as Ue2.
  pose proof (wellTyped_ratio s (currentLegBegin lastStoredBits d) Hwt) as Ub1.
  destruct (legCumulative_le_exact (next d) _ _ Hn Ue1 Ue2 H2) as [Hr2 Hq2].
  destruct H2 as (Hs1 & Hs2 & _).
  rewrite (isSet_true _ Hs1), (isSet_true _ Hs2).
  destruct (Z.eqb_spec (current d) 0) as [E|E]; cbn.
  - eexists. split; [reflexivity|].
    apply total_le_exact; [lia|exact Hr2| |exact Hq2].
    unfold exactLeg. rewrite E. cbn. rewrite Qmult_0_l. apply Qle_refl.
  - specialize (H1 E).
    destruct (legCumulative_le_exact (current d) _ _ Hc Ub1 Ue1 H1) as [Hr1 Hq1].
    destruct H1 as (Hb1 & _ & _).
    rewrite (isSet_true _ Hb1). cbn.
    eexists. split; [reflexivity|].
    destruct (wrap_le 256 (0 + rewardRatio (current d)
                (rewardRatioSumAt s (currentLegBegin lastStoredBits d))
                (rewardRatioSumAt s (lastStored d)))) as [Hw0 Hw]; [lia|].
    apply total_le_exact; [exact Hw0|exact Hr2| |exact Hq2].
    eapply Qle_trans; [|exact Hq1].
    rewrite <- Zle_Qle. lia.
Qed.

(** ** Claims about [syncRewardBalanceOfStakingPoolMember] *)

(** C9. A call that returns leaves the whole storage as it was: the member's
    stake record, the ratio ledger and everything else. Its only effect is
    one [transferMemberBalanceToEthVault] call for the computed balance,
    made exactly when that balance is nonzero. *)
Theorem sync_leaves_storage_unchanged w poolId member w' :
  outcome (syncRewardBalanceOfStakingPoolMember lastStoredBits poolId member w)
  = Ok (tt, w') ->
  storage w' = storage w
  /\ exists balance,
       outcome (computeRewardBalanceOfStakingPoolMember
                  lastStoredBits poolId member w) = Ok (balance, w)
       /\ vaultCalls w'
          = vaultCalls w ++
            (if balance =? 0 then []
             else [TransferMemberBalanceToEthVault poolId member balance]).
Proof.
  rewrite sync_outcome, compute_outcome.
  destruct (rewardBalance lastStoredBits (storage w) poolId member)
    as [balance|e]; [|discriminate].
  destruct (balance =? 0) eqn:E.
  - intros H. injection H as <-. split; [reflexivity|].
    exists balance. rewrite E, app_nil_r. split; reflexivity.
  - destruct (rewardVault (storage w) =? 0); [discriminate|].
    intros H. injection H as <-. split; [reflexivity|].
    exists balance. rewrite E. split; reflexivity.
Qed.

(** C10. Both functions are total and finish (by returning or by reverting)
    within a fixed number of primitive steps, whatever the storage holds and
    however many members it records. *)
Theorem core_operations_terminate w poolId member :
  let compute :=
    computeRewardBalanceOfStakingPoolMember lastStoredBits poolId member w in
  let sync :=
    syncRewardBalanceOfStakingPoolMember lastStoredBits poolId member w in
  ((steps compute <= computeStepBound)%nat
   /\ ((exists v, outcome compute = Ok (v, w))
       \/ exists e, outcome compute = Reverted e))
  /\ ((steps sync <= syncStepBound)%nat
      /\ ((exists w', outcome sync = Ok (tt, w'))
          \/ exists e, outcome sync = Reverted e)).
Proof.
  cbv zeta. split; split.
  - apply compute_bounded.
  - rewrite compute_outcome.
    destruct (rewardBalance lastStoredBits (storage w) poolId member) as [v|e];
      [left|right]; eexists; reflexivity.
  - apply sync_bounded.
  - rewrite sync_outcome.
    destruct (rewardBalance lastStoredBits (storage w) poolId member)
      as [balance|e]; [|right; eexists; reflexivity].
    destruct (balance =? 0); [left; eexists; reflexivity|].
    destruct (rewardVault (storage w) =? 0);
      [right|left]; eexists; reflexivity.
Qed.

End Properties.

(** * The code on concrete states *)

Import Scenario.

Lemma compute_zero_when_nothing_to_interpolate_witness :
  lastStored (delegatedStakeAt (storageAt 1) memberA poolId)
  = currentEpoch (storageAt 1)
  /\ outcome (computeRewardBalanceOfStakingPoolMember
                epochBits poolId memberA (worldAt 1))
     = Ok (0, worldAt 1).
Proof.
  split; [reflexivity|].
  apply compute_zero_when_nothing_to_interpolate. right. reflexivity.
Defined.

(** A member that never delegated has the all-zero record; at epoch 3 the
    `next` leg reads epoch 0, which was never written. *)
Lemma compute_fails_on_unset_snapshot_witness :
  next (delegatedStakeAt (storageAt 3) 11 poolId) = 0
  /\ denominator (rewardRatioSumAt (storageAt 3) 0) = 0
  /\ outcome (computeRewardBalanceOfStakingPoolMember
                epochBits poolId 11 (worldAt 3))
     = Reverted DivisionByZero.
Proof.
  split; [reflexivity|]. split; [reflexivity|].
  apply compute_fails_on_unset_snapshot.
  - vm_compute. discriminate.
  - vm_compute. discriminate.
  - left. reflexivity.
Defined.

Lemma compute_reads_snapshots_as_stored_witness :
  outcome (computeRewardBalanceOfStakingPoolMember
             epochBits poolId memberA (worldAt 3))
  = Ok (1000, worldAt 3)
  /\ denominator (rewardRatioSumAt (storageAt 3) 1) <> 0
  /\ denominator (rewardRatioSumAt (storageAt 3) 2) <> 0.
Proof.
  assert (E : outcome (computeRewardBalanceOfStakingPoolMember
                         epochBits poolId memberA (worldAt 3))
              = Ok (1000, worldAt 3)) by reflexivity.
  split; [exact E|].
  destruct (compute_reads_snapshots_as_stored epochBits (worldAt 3)
              poolId memberA 1000) as (H1 & H2 & _).
  - vm_compute. discriminate.
  - vm_compute. discriminate.
  - exact E.
  - split; [exact H1|exact H2].
Defined.

Lemma truncating_wellTyped : wellTyped (storage Truncating.world).
Proof.
  split.
  - apply (bool_decide_unpack _). vm_compute. exact I.
  - apply (bool_decide_unpack _). vm_compute. exact I.
Defined.

Lemma truncating_cumulative :
  neededSnapshotsCumulative epochBits (storage Truncating.world)
    Truncating.poolId Truncating.memberB.
Proof.
  vm_compute. repeat split; intros H; discriminate H.
Defined.

(** The code returns 7 where the exact reward is 7 * 1/3 + 5 * 3/3 = 22/3. *)
Lemma compute_never_overpays_witness :
  outcome (computeRewardBalanceOfStakingPoolMember
             epochBits Truncating.poolId Truncating.memberB Truncating.world)
  = Ok (7, Truncating.world)
  /\ (exactReward epochBits (storage Truncating.world)
        Truncating.poolId Truncating.memberB == 22 # 3)%Q
  /\ exists v,
       outcome (computeRewardBalanceOfStakingPoolMember
                  epochBits Truncating.poolId Truncating.memberB
                  Truncating.world)
       = Ok (v, Truncating.world)
       /\ (inject_Z v <= exactReward epochBits (storage Truncating.world)
                           Truncating.poolId Truncating.memberB)%Q.
Proof.
  split; [reflexivity|]. split; [reflexivity|].
  apply (compute_never_overpays epochBits Truncating.world
           Truncating.poolId Truncating.memberB).
  - apply truncating_wellTyped.
  - apply truncating_cumulative.
Defined.

Lemma sync_leaves_storage_unchanged_witness :
  let w' :=
    mkWorld (storageAt 3)
      [TransferMemberBalanceToEthVault poolId memberA 1000] in
  storage w' = storageAt 3
  /\ exists balance,
       outcome (computeRewardBalanceOfStakingPoolMember
                  epochBits poolId memberA (worldAt 3))
       = Ok (balance, worldAt 3)
       /\ vaultCalls w'
          = [] ++
            (if balance =? 0 then []
             else [TransferMemberBalanceToEthVault poolId memberA balance]).
Proof.
  apply (sync_leaves_storage_unchanged epochBits (worldAt 3) poolId memberA).
  reflexivity.
Defined.

(** C4, as the specification states it, fails. At epoch 4 the `next` leg of
    member A ends at epoch 3, where nothing was recorded; the nearest set
    snapshot is the one of epoch 2. With carry-forward the reward is 1000;
    the code divides by the zero denominator of the unset entry and
    reverts. *)
Lemma compute_does_not_carry_forward :
  rewardRatioSums (storageAt 4) !! 3 = None
  /\ CarryForward.get (storageAt 4) 3 = Some (mkND 10 1)
  /\ CarryForward.computeUnsettledReward (storageAt 4) poolId memberA
     = Some 1000
  /\ outcome (computeRewardBalanceOfStakingPoolMember
                epochBits poolId memberA (worldAt 4))
     = Reverted DivisionByZero
  /\ returned (computeRewardBalanceOfStakingPoolMember
                 epochBits poolId memberA (worldAt 4))
     <> CarryForward.computeUnsettledReward (storageAt 4) poolId memberA.
Proof.
  repeat split; try reflexivity.
  vm_compute. discriminate.
Qed.

(** ** Settlement does not settle

    [syncRewardBalanceOfStakingPoolMember] ends where its comment
    "Remove the reference" stands: the member's record is not brought up
    to the current epoch, so the same balance stays payable. *)

(** C2 on the scenario. The computed reward at epoch 3 is 1000; the call
    transfers it, and afterwards the record still has [lastStored = 1]
    (not 3) and [current = 0] (not [next = 100]). *)
Lemma sync_does_not_update_the_record :
  exists w',
    outcome (syncRewardBalanceOfStakingPoolMember
               epochBits poolId memberA (worldAt 3)) = Ok (tt, w')
    /\ vaultCalls w' = [TransferMemberBalanceToEthVault poolId memberA 1000]
    /\ currentEpoch (storage w') = 3
    /\ delegatedStakeAt (storage w') memberA poolId
       = mkStoredStakeBalance 1 100 0.
Proof. eexists. repeat split. Qed.

(** C3 on the scenario. Right after a first call that paid 1000, with no
    stake change and no epoch advance, the computed reward is 1000 again
    and a second call transfers it a second time. *)
Lemma second_sync_pays_again :
  exists w' w'',
    outcome (syncRewardBalanceOfStakingPoolMember
               epochBits poolId memberA (worldAt 3)) = Ok (tt, w')
    /\ returned (computeRewardBalanceOfStakingPoolMember
                   epochBits poolId memberA w') = Some 1000
    /\ outcome (syncRewardBalanceOfStakingPoolMember
                  epochBits poolId memberA w') = Ok (tt, w'')
    /\ vaultCalls w''
       = [TransferMemberBalanceToEthVault poolId memberA 1000;
          TransferMemberBalanceToEthVault poolId memberA 1000].
Proof. do 2 eexists. repeat split. Qed.

(** C5 on the code. With the snapshots 0/1 at epoch 1 and 10/1 at epoch 2,
    the call of member A at epoch 3 pays out exactly 1000, as the scenario
    expects, but the record's [lastStored] stays 1. With no snapshot at
    epoch 1 the call reverts and pays nothing. *)
Lemma scenario_settle_at_epoch_3 :
  (exists w',
     outcome (syncRewardBalanceOfStakingPoolMember
                epochBits poolId memberA (worldAt 3)) = Ok (tt, w')
     /\ totalPaid poolId (vaultCalls w') = 1000
     /\ lastStored (delegatedStakeAt (storage w') memberA poolId) = 1
     /\ lastStored (delegatedStakeAt (storage w') memberA poolId) <> 3)
  /\ outcome (syncRewardBalanceOfStakingPoolMember
                epochBits poolId memberA worldWithoutEpoch1)
     = Reverted DivisionByZero.
Proof.
  split; [|reflexivity].
  eexists. repeat split. vm_compute. discriminate.
Qed.

(** C1 on the scenario. 1000 units were credited to the pool; two calls by
    member A at epoch 3 move 2000 units to the vault. *)
Lemma scenario_pays_out_more_than_credited :
  exists w'',
    outcome (bind (syncRewardBalanceOfStakingPoolMember epochBits poolId memberA)
               (fun _ => syncRewardBalanceOfStakingPoolMember
                           epochBits poolId memberA)
               (worldAt 3)) = Ok (tt, w'')
    /\ totalPaid poolId (vaultCalls w'') = 2000
    /\ credited < totalPaid poolId (vaultCalls w'').
Proof. eexists. repeat split. Qed.

(** * Further properties of the mixin *)

Section MixinProperties.

Variable lastStoredBits : Z.
Context {Rest : Type}.
Implicit Types (w : World Rest) (s : Storage Rest) (poolId member : Z).

(** The view function changes nothing: when it returns, the world (storage
    and calls made to the vault) is the one it was called in. *)
Theorem compute_is_a_view w poolId member v w' :
  outcome (computeRewardBalanceOfStakingPoolMember lastStoredBits poolId member w)
  = Ok (v, w') ->
  w' = w.
Proof.
  rewrite compute_outcome.
  destruct (rewardBalance lastStoredBits (storage w) poolId member);
    [|discriminate].
  intros H. injection H as _ <-. reflexivity.
Qed.

(** What the view function returns fits in a [uint256]. *)
Theorem compute_returns_uint256 w poolId member v w' :
  outcome (computeRewardBalanceOfStakingPoolMember lastStoredBits poolId member w)
  = Ok (v, w') ->
  is_uint 256 v.
Proof.
  rewrite compute_outcome. unfold rewardBalance. cbv zeta.
  destruct (_ || _).
  { intros H. injection H as <- _. split; [lia|reflexivity]. }
  destruct (_ && _); [discriminate|].
  destruct (negb _); [discriminate|].
  intros H. injection H as <- _.
  unfold is_uint, wrap. apply Z.mod_pos_bound. reflexivity.
Qed.

(** With a nonzero balance to pay and no reward vault configured, the paying
    function reverts with the reason "eyo". *)
Theorem sync_requires_a_vault w poolId member balance :
  outcome (computeRewardBalanceOfStakingPoolMember lastStoredBits poolId member w)
  = Ok (balance, w) ->
  balance <> 0 ->
  rewardVault (storage w) = 0 ->
  outcome (syncRewardBalanceOfStakingPoolMember lastStoredBits poolId member w)
  = Reverted (RequireFailed "eyo").
Proof.
  rewrite sync_outcome, compute_outcome.
  destruct (rewardBalance lastStoredBits (storage w) poolId member) as [b|e];
    [|discriminate].
  intros H Hb Hv. injection H as ->.
  apply Z.eqb_neq in Hb. rewrite Hb, Hv. reflexivity.
Qed.

(** A failure of the view function is the failure of the paying function. *)
Theorem sync_propagates_failure w poolId member e :
  outcome (computeRewardBalanceOfStakingPoolMember lastStoredBits poolId member w)
  = Reverted e ->
  outcome (syncRewardBalanceOfStakingPoolMember lastStoredBits poolId member w)
  = Reverted e.
Proof.
  rewrite sync_outcome, compute_outcome.
  destruct (rewardBalance lastStoredBits (storage w) poolId member) as [b|e'];
    [discriminate|].
  intros H. injection H as ->. reflexivity.
Qed.

(** The reward of a member depends on the current epoch, on the member's
    own record and on the three ledger entries the legs read, and on nothing
    else: not on other members or pools, other epochs, the vault or
    earlier transfers. *)
Theorem compute_is_local w1 w2 poolId member :
  let d := delegatedStakeAt (storage w1) member poolId in
  currentEpoch (storage w2) = currentEpoch (storage w1) ->
  delegatedStakeAt (storage w2) member poolId = d ->
  (forall epoch,
     epoch = currentLegBegin lastStoredBits d \/ epoch = lastStored d
     \/ epoch = nextLegEnd (storage w1) ->
     rewardRatioSumAt (storage w2) epoch = rewardRatioSumAt (storage w1) epoch) ->
  returned (computeRewardBalanceOfStakingPoolMember
              lastStoredBits poolId member w2)
  = returned (computeRewardBalanceOfStakingPoolMember
                lastStoredBits poolId member w1).
Proof.
  intros d He Hd Hr. unfold returned. rewrite !compute_outcome.
  assert (E : rewardBalance lastStoredBits (storage w2) poolId member
              = rewardBalance lastStoredBits (storage w1) poolId member).
  { unfold rewardBalance, nextLegEnd in *. cbv zeta.
    rewrite Hd, He. fold d.
    rewrite !Hr by auto. reflexivity. }
  rewrite E.
  destruct (rewardBalance lastStoredBits (storage w1) poolId member);
    reflexivity.
Qed.

(** A member without stake is never paid: with [current = 0] and [next = 0]
    the view function returns 0 whenever it returns, and the paying function
    makes no transfer. *)
Theorem no_stake_no_payment w poolId member :
  let d := delegatedStakeAt (storage w) member poolId in
  current d = 0 -> next d = 0 ->
  (forall v w',
     outcome (computeRewardBalanceOfStakingPoolMember
                lastStoredBits poolId member w) = Ok (v, w') -> v = 0)
  /\ (forall w',
        outcome (syncRewardBalanceOfStakingPoolMember
                   lastStoredBits poolId member w) = Ok (tt, w') -> w' = w).
Proof.
  intros d Hc Hn.
  assert (E : forall v, rewardBalance lastStoredBits (storage w) poolId member
                        = Ok v -> v = 0).
  { unfold rewardBalance. cbv zeta. fold d. rewrite Hc, Hn. cbn.
    destruct (_ || _); [intros v H; injection H as <-; reflexivity|].
    destruct (negb _); [discriminate|].
    intros v H. injection H as <-. unfold rewardRatio.
    rewrite Z.mul_0_l. reflexivity. }
  split.
  - intros v w'. rewrite compute_outcome.
    destruct (rewardBalance lastStoredBits (storage w) poolId member) as [b|e];
      [|discriminate].
    intros H. injection H as <- _. apply E. reflexivity.
  - intros w'. rewrite sync_outcome.
    destruct (rewardBalance lastStoredBits (storage w) poolId member) as [b|e];
      [|discriminate].
    rewrite (E b eq_refl). cbn. intros H. injection H as <-. reflexivity.
Qed.


(** A record with current stake that was last stored at epoch 0 makes the
    `current` leg begin at epoch [2^lastStoredBits - 1], where the
    subtraction [lastStored - 1] wraps; unless a snapshot is stored there,
    the call reverts. *)
Theorem compute_wraps_before_epoch_0 w poolId member :
  let s := storage w in
  let d := delegatedStakeAt s member poolId in
  0 <= lastStoredBits ->
  currentEpoch s <> 0 ->
  lastStored d = 0 ->
  current d <> 0 ->
  denominator (rewardRatioSumAt s (2 ^ lastStoredBits - 1)) = 0 ->
  outcome (computeRewardBalanceOfStakingPoolMember lastStoredBits poolId member w)
  = Reverted DivisionByZero.
Proof.
  intros s d HW He Hl Hc Hden. rewrite compute_outcome.
  unfold rewardBalance. cbv zeta. fold s. fold d.
  assert (Hb : currentLegBegin lastStoredBits d = 2 ^ lastStoredBits - 1).
  { unfold currentLegBegin, wrap. rewrite Hl.
    assert (0 < 2 ^ lastStoredBits) by (apply Z.pow_pos_nonneg; lia).
    symmetry. apply Z.mod_unique with (q := -1); lia. }
  rewrite Hb, Hl.
  apply Z.eqb_neq in He. rewrite He.
  replace (0 =? currentEpoch s) with false
    by (symmetry; apply Z.eqb_neq; apply Z.eqb_neq in He; lia).
  apply Z.eqb_neq in Hc. rewrite Hc. cbn.
  rewrite (isSet_false _ Hden). reflexivity.
Qed.

(** *** How much truncation can cost *)







End MixinProperties.

Lemma compute_is_a_view_witness :
  exists v w',
    outcome (computeRewardBalanceOfStakingPoolMember
               epochBits poolId memberA Fixtures.worldWithOthers)
    = Ok (v, w')
    /\ w' = Fixtures.worldWithOthers.
Proof.
  exists 1000, Fixtures.worldWithOthers.
  split; [reflexivity|].
  apply (compute_is_a_view epochBits Fixtures.worldWithOthers poolId memberA 1000).
  reflexivity.
Defined.

Lemma compute_returns_uint256_witness :
  outcome (computeRewardBalanceOfStakingPoolMember
             epochBits poolId memberA (worldAt 3))
  = Ok (1000, worldAt 3)
  /\ is_uint 256 1000.
Proof.
  split; [reflexivity|].
  apply (compute_returns_uint256 epochBits (worldAt 3) poolId memberA 1000
           (worldAt 3)).
  reflexivity.
Defined.

Lemma sync_requires_a_vault_witness :
  rewardVault (storage Fixtures.worldWithoutVault) = 0
  /\ outcome (syncRewardBalanceOfStakingPoolMember
                epochBits poolId memberA Fixtures.worldWithoutVault)
     = Reverted (RequireFailed "eyo").
Proof.
  split; [reflexivity|].
  apply (sync_requires_a_vault epochBits Fixtures.worldWithoutVault
           poolId memberA 1000).
  - reflexivity.
  - discriminate.
  - reflexivity.
Defined.

Lemma sync_propagates_failure_witness :
  outcome (syncRewardBalanceOfStakingPoolMember
             epochBits poolId memberA worldWithoutEpoch1)
  = Reverted DivisionByZero.
Proof.
  apply sync_propagates_failure. reflexivity.
Defined.

Lemma compute_is_local_witness :
  returned (computeRewardBalanceOfStakingPoolMember
              epochBits poolId memberA Fixtures.worldWithOthers)
  = returned (computeRewardBalanceOfStakingPoolMember
                epochBits poolId memberA (worldAt 3)).
Proof.
  apply compute_is_local.
  - reflexivity.
  - reflexivity.
  - intros epoch [->|[->| ->]]; reflexivity.
Defined.

Lemma no_stake_no_payment_witness :
  outcome (computeRewardBalanceOfStakingPoolMember
             epochBits poolId 11 Fixtures.worldWithEpoch0)
  = Ok (0, Fixtures.worldWithEpoch0)
  /\ (forall v w',
        outcome (computeRewardBalanceOfStakingPoolMember
                   epochBits poolId 11 Fixtures.worldWithEpoch0)
        = Ok (v, w') -> v = 0)
  /\ (forall w',
        outcome (syncRewardBalanceOfStakingPoolMember
                   epochBits poolId 11 Fixtures.worldWithEpoch0)
        = Ok (tt, w') -> w' = Fixtures.worldWithEpoch0).
Proof.
  split; [reflexivity|].
  apply (no_stake_no_payment epochBits Fixtures.worldWithEpoch0 poolId 11);
    reflexivity.
Defined.


Lemma compute_wraps_before_epoch_0_witness :
  lastStored (delegatedStakeAt (storage Fixtures.worldStoredAtEpoch0)
                memberA poolId) = 0
  /\ currentLegBegin epochBits
       (delegatedStakeAt (storage Fixtures.worldStoredAtEpoch0) memberA poolId)
     = 18446744073709551615
  /\ outcome (computeRewardBalanceOfStakingPoolMember
                epochBits poolId memberA Fixtures.worldStoredAtEpoch0)
     = Reverted DivisionByZero.
Proof.
  split; [reflexivity|]. split; [reflexivity|].
  apply compute_wraps_before_epoch_0.
  - discriminate.
  - discriminate.
  - reflexivity.
  - discriminate.
  - reflexivity.
Defined.



(** * Properties of the analytics module *)

Section AnalyticsProperties.

Import Analytics.

Context {Heap : Type}.
Variable evaluateHeapCall : HeapCall -> Heap -> Heap.

(** While analytics is disabled, no run of uses of the [analytics] object
    reaches the heap or changes the flag: the state stays as it is. *)
Theorem disabled_analytics_sends_nothing (uses : list Use) (st : State) :
  isDisabled st = true ->
  runAll evaluateHeapCall uses st = st.
Proof.
  intros Hd. unfold runAll. induction uses as [|use uses IH]; cbn.
  - reflexivity.
  - assert (E : analytics evaluateHeapCall use st = st).
    { destruct use; cbn;
        unfold addUserProperties, addEventProperties, trackInstantOpened,
          trackAccountLocked, trackAccountReady, trackAccountUnlockRequested,
          trackAccountUnlockDenied, trackAccountAddressChanged,
          trackBuyNotEnoughEth, trackBuyStarted, trackBuySignatureDenied,
          trackBuySimulationFailed, trackBuyTxSubmitted, trackBuyTxSucceeded,
          trackBuyTxFailed, trackingEventFnWithoutPayload,
          trackingEventFnWithPayload, track, evaluateIfEnabled;
        rewrite Hd; reflexivity. }
    rewrite E. exact IH.
Qed.

(** While analytics is enabled, every use hands the heap exactly one call,
    in the order of the uses, with the event name and the properties of
    that use; the flag stays off. *)
Theorem enabled_analytics_sends_each_use_in_order
  (uses : list Use) (st : State) :
  isDisabled st = false ->
  runAll evaluateHeapCall uses st
  = mkState false
      (fold_left (fun h use => evaluateHeapCall (heapCallOf use) h)
         uses (heap st)).
Proof.
  unfold runAll. revert st. induction uses as [|use uses IH]; intros st Hd; cbn.
  - destruct st as [d h]. cbn in *. subst d. reflexivity.
  - assert (E : analytics evaluateHeapCall use st
                = mkState false (evaluateHeapCall (heapCallOf use) (heap st))).
    { destruct use; cbn;
        unfold addUserProperties, addEventProperties, trackInstantOpened,
          trackAccountLocked, trackAccountReady, trackAccountUnlockRequested,
          trackAccountUnlockDenied, trackAccountAddressChanged,
          trackBuyNotEnoughEth, trackBuyStarted, trackBuySignatureDenied,
          trackBuySimulationFailed, trackBuyTxSubmitted, trackBuyTxSucceeded,
          trackBuyTxFailed, trackingEventFnWithoutPayload,
          trackingEventFnWithPayload, track, evaluateIfEnabled,
          heapUtil_evaluateHeapCall;
        rewrite Hd; reflexivity. }
    rewrite E. rewrite IH by reflexivity. reflexivity.
Qed.

(** Different members of [EventNames] have different string values, so no
    two events are told apart by the heap as one. *)
Theorem event_names_are_distinct (e1 e2 : EventNames) :
  e1 <> e2 -> eventNameValue e1 <> eventNameValue e2.
Proof.
  intros Hne Heq. apply Hne.
  destruct e1, e2; try reflexivity; discriminate Heq.
Qed.

End AnalyticsProperties.

Lemma disabled_analytics_sends_nothing_witness :
  let st :=
    Analytics.disableAnalytics true
      (Analytics.loaded [Analytics.HeapTrack "Instant - Opened" ∅]) in
  Analytics.runAll Analytics.recordingHeap
    [Analytics.UseTrackAccountReady "0xabc"; Analytics.UseTrackBuyStarted] st
  = st.
Proof.
  cbv zeta.
  apply (disabled_analytics_sends_nothing Analytics.recordingHeap).
  reflexivity.
Defined.

Lemma enabled_analytics_sends_each_use_in_order_witness :
  Analytics.runAll Analytics.recordingHeap
    [Analytics.UseTrackAccountReady "0xabc"; Analytics.UseTrackBuyStarted]
    (Analytics.loaded [])
  = Analytics.mkState false
      [Analytics.HeapTrack "Account - Ready" {[ "address" := "0xabc" ]};
       Analytics.HeapTrack "Buy - Started" ∅].
Proof.
  rewrite (enabled_analytics_sends_each_use_in_order Analytics.recordingHeap)
    by reflexivity.
  reflexivity.
Defined.

Lemma event_names_are_distinct_witness :
  Analytics.eventNameValue Analytics.BUY_TX_SUBMITTED
  <> Analytics.eventNameValue Analytics.BUY_TX_SUCCEEDED.
Proof. apply event_names_are_distinct. discriminate. Defined.

(** * Properties of the mnemonic wallet subprovider *)

Section MnemonicWalletProperties.

Import MnemonicWallet.

Context {Seed HDNode TxFields : Type}.
Context {imports : Imports Seed HDNode TxFields}.

Lemma last_after_first (p : string) (paths : list string) (d : string) :
  List.last (p :: paths) d = List.last paths p.
Proof.
  revert p d. induction paths as [|q paths IH]; intros p d; [reflexivity|].
  change (List.last (p :: q :: paths) d) with (List.last (q :: paths) d).
  rewrite (IH q d), (IH q p). reflexivity.
Qed.

(** However often [setPath] is called, it changes what [getPath] returns
    (the path set last) and nothing else: the accounts listed and the
    signatures made afterwards are those of the key derived by the
    constructor, for the path given to the constructor. *)
Theorem setPath_changes_getPath_only
  (this : MnemonicWalletSubprovider HDNode) (paths : list string) :
  let this' := fold_left (fun wallet path => setPath path wallet) paths this in
  getPath this' = List.last paths (getPath this)
  /\ _derivedKey this' = _derivedKey this
  /\ (forall numberOfAccounts,
        getAccountsAsync this' numberOfAccounts
        = getAccountsAsync this numberOfAccounts)
  /\ (forall txParams,
        signTransactionAsync this' txParams
        = signTransactionAsync this txParams)
  /\ (forall data signer,
        signPersonalMessageAsync this' data signer
        = signPersonalMessageAsync this data signer).
Proof.
  cbv zeta. revert this.
  induction paths as [|path paths IH]; intros this.
  - repeat split.
  - destruct (IH (setPath path this)) as (Hp & Hk & Ha & Ht & Hm).
    cbn [fold_left]. repeat split.
    + rewrite Hp. symmetry. apply last_after_first.
    + rewrite Hk. reflexivity.
    + intros n. rewrite Ha. reflexivity.
    + intros tx. rewrite Ht. reflexivity.
    + intros data signer. rewrite Hm. reflexivity.
Qed.

(** Signing for an address that the search over derived keys does not find
    fails with "<AddressNotFound>: <address>", whatever the signer would
    do. *)
Theorem signing_for_an_unknown_address_throws
  (this : MnemonicWalletSubprovider HDNode) (sender : string) :
  walletUtils_findDerivedKeyByAddress sender (_derivedKey this)
    (_addressSearchLimit this) = Returned None ->
  (forall fields,
     signTransactionAsync this (mkPartialTxParams (Some sender) fields)
     = Thrown (String.append WalletSubproviderErrors_AddressNotFound
                 (String.append ": " sender)))
  /\ (forall data,
        signPersonalMessageAsync this data (Some sender)
        = Thrown (String.append WalletSubproviderErrors_AddressNotFound
                    (String.append ": " sender))).
Proof.
  intros Hfind. split; intros;
    unfold signTransactionAsync, signPersonalMessageAsync,
      _findDerivedKeyByPublicAddress; cbn; rewrite Hfind; reflexivity.
Qed.

End MnemonicWalletProperties.

Lemma signing_for_an_unknown_address_throws_witness :
  exists this,
    MnemonicWallet.constructor (imports:=MnemonicWallet.toyImports)
      "abc" None None
    = MnemonicWallet.Returned this
    /\ MnemonicWallet.signTransactionAsync (imports:=MnemonicWallet.toyImports)
         this (MnemonicWallet.mkPartialTxParams (Some "0xdead") "tx")
       = MnemonicWallet.Thrown "ADDRESS_NOT_FOUND: 0xdead".
Proof.
  eexists. split; [reflexivity|].
  refine (proj1 (signing_for_an_unknown_address_throws
                   (imports:=MnemonicWallet.toyImports) _ "0xdead" _) "tx").
  reflexivity.
Defined.





